(** * A shallow embedding of [systems/local.go] (Amass v3, [LocalSystem])

    The Go code is modelled as follows.
    - Go [int] values are [Z]; arithmetic that can overflow is wrapped to
      64 bits with [wrap64].
    - A computation that may block forever or panic returns a [go A]:
      [Done a], [Hang] (blocked on a channel nobody serves) or
      [Panic msg] (a Go runtime panic).
    - A returned Go [error] is an [option string] ([None] is [nil]).
    - Collaborators that live outside this file (DNS probing, resolver
      construction, graph backends, data sources) are inputs: the result
      each call returns is a parameter of the embedded function. *)

From Stdlib Require Import ZArith Lia.
From stdpp Require Import base list gmap strings sorting pretty.
Open Scope Z_scope.

(* ------------------------------------------------------------------ *)
(** ** Go effects *)

Inductive go (A : Type) : Type :=
| Done (a : A)
| Hang
| Panic (msg : string).
Arguments Done {A} a.
Arguments Hang {A}.
Arguments Panic {A} msg.

Definition go_bind {A B} (m : go A) (k : A -> go B) : go B :=
  match m with
  | Done a => k a
  | Hang => Hang
  | Panic s => Panic s
  end.

Notation "x <- m ;; k" := (go_bind m (fun x => k))
  (at level 100, m at next level, right associativity).

(** A Go error value: [None] is [nil]. *)
Abbreviation error := (option string).

(** Two's-complement wrap-around of a 64-bit Go [int]. *)
Definition wrap64 (z : Z) : Z :=
  let m := 2 ^ 64 in
  let r := z mod m in
  if r >=? 2 ^ 63 then r - m else r.

(** Go's integer division [a / b] on [int]: truncates toward zero and panics
    on a zero divisor. *)
Definition go_div (a b : Z) : go Z :=
  if b =? 0 then Panic "runtime error: integer divide by zero"
  else Done (wrap64 (Z.quot a b)).

(* ------------------------------------------------------------------ *)
(** ** Configuration and [customResolverSetup] *)

(** The fields of [config.Config] read or written by the resolver setup. *)
Record Config := mkConfig {
  Resolvers : list string;
  MaxDNSQueries : Z;
}.

(** A resolver handle built by [resolvers.NewBaseResolver]: its address and
    its query rate. *)
Record BaseResolver := mkBaseResolver {
  res_addr : string;
  res_rate : Z;
}.

Section CustomResolverSetup.

(** [config.DefaultQueriesPerBaselineResolver]. *)
Variable DefaultQueriesPerBaselineResolver : Z.
(** Whether [resolvers.NewBaseResolver addr rate log] returns a non-nil
    handle (it is outside this file). *)
Variable newBaseResolver_ok : string -> Z -> bool.

(** [customResolverSetup cfg max]: the (written back) configuration and the
    trusted resolvers handed to [resolvers.NewResolverPool]. *)
Definition customResolverSetup (cfg : Config) (max : Z)
    : go (Config * list BaseResolver) :=
  let num := Z.of_nat (length (Resolvers cfg)) in
  let num := if num >? max then max else num in
  let q := MaxDNSQueries cfg in
  let q := if q =? 0 then wrap64 (num * DefaultQueriesPerBaselineResolver)
           else if q <? num then num else q in
  let cfg := mkConfig (Resolvers cfg) q in
  rate <- go_div (MaxDNSQueries cfg) num ;;
  let trusted :=
    map (fun addr => mkBaseResolver addr rate)
      (filter (fun addr => newBaseResolver_ok addr rate = true) (Resolvers cfg)) in
  Done (cfg, trusted).

End CustomResolverSetup.

(* ------------------------------------------------------------------ *)
(** ** Data sources and the registry actor [manageDataSources] *)

(** A [service.Service]: an identity of its own and the name [String()]
    returns. Two services may share a name. *)
Record Service := mkService {
  svc_id : nat;
  svc_name : string;
}.

(** The [less] function handed to [sort.Slice]:
    [dataSources[i].String() < dataSources[j].String()] (Go compares strings
    byte by byte, as [String.ltb] does). *)
Definition svc_less (a b : Service) : bool :=
  String.ltb (svc_name a) (svc_name b).

(** The contract of Go's [sort.Slice(x, less)]: the result is a permutation
    of [x] and, for [i < j], [less(x[j], x[i])] is false. The sort is not
    stable, so the relative order of equal names is left open. *)
Definition sort_slice (x x' : list Service) : Prop :=
  x' ≡ₚ x /\
  forall i j a b, (i < j)%nat -> x' !! i = Some a -> x' !! j = Some b ->
    svc_less b a = false.

(** The messages the actor's [select] receives. *)
Inductive actor_msg :=
| MsgDone                      (* [<-l.done] *)
| MsgAdd (s : Service)         (* [add := <-l.addSource] *)
| MsgAll.                      (* [all := <-l.allSources]; the reply is the list *)

(** The actor loop over a sequence of received messages, from its list
    [dataSources]; [replies] are the lists sent back to [DataSources]
    callers, in order. After [MsgDone] the loop has returned. *)
Inductive actor_run : list Service -> list actor_msg -> list (list Service) -> Prop :=
| run_nil ds : actor_run ds [] []
| run_done ds ms : actor_run ds (MsgDone :: ms) []
| run_add ds ds' s ms rs :
    sort_slice (ds ++ [s]) ds' ->
    actor_run ds' ms rs ->
    actor_run ds (MsgAdd s :: ms) rs
| run_all ds ms rs :
    actor_run ds ms rs ->
    actor_run ds (MsgAll :: ms) (ds :: rs).

(** The lists, as multisets, that the [MsgAll] replies should hold: all the
    services added so far, starting from [acc]. *)
Fixpoint expected_replies (acc : list Service) (ms : list actor_msg)
    : list (list Service) :=
  match ms with
  | [] => []
  | MsgDone :: _ => []
  | MsgAdd s :: ms' => expected_replies (acc ++ [s]) ms'
  | MsgAll :: ms' => acc :: expected_replies acc ms'
  end.

(** A list sorted by name, index-wise. *)
Definition sorted_by_name (ds : list Service) : Prop :=
  forall i j a b, (i < j)%nat -> ds !! i = Some a -> ds !! j = Some b ->
    String.le (svc_name a) (svc_name b).

Global Instance Service_eq_dec : EqDecision Service.
Proof. solve_decision. Defined.

(* ------------------------------------------------------------------ *)
(** ** The ASN cache and [loadCacheData] *)

(** A record of [config.GetIP2ASNData]: IPv4 addresses as 32-bit values. *)
Record IPRange := mkIPRange {
  FirstIP : Z;
  LastIP : Z;
  ASN : Z;
  CC : string;
  Description : string;
}.

(** A [*net.IPNet]: the network address and the mask length [Mask.Size()]. *)
Record IPNet := mkIPNet {
  net_IP : Z;
  net_ones : N;
}.

(** [net.IP.String()] of an IPv4 address (dotted quad). *)
Definition ip4_String (ip : Z) : string :=
  let octet k := pretty (Z.to_N (Z.land (Z.shiftr ip k) 255)) in
  octet 24 +:+ "." +:+ octet 16 +:+ "." +:+ octet 8 +:+ "." +:+ octet 0.

(** [net.IPNet.String()]: ["ip/ones"]. *)
Definition IPNet_String (n : IPNet) : string :=
  ip4_String (net_IP n) +:+ "/" +:+ pretty (net_ones n).

(** [requests.ASNRequest], the cache's entry. *)
Record ASNRequest := mkASNRequest {
  req_Address : string;
  req_ASN : Z;
  req_CC : string;
  req_Prefix : string;
  req_Description : string;
}.

(** Modelled from the spec: [amassnet.ASNCache] and its [Update] (the
    [net] package is not part of this file). "Each remaining record is
    upserted into the cache keyed by its CIDR." *)
Abbreviation ASNCache := (gmap string ASNRequest).

Definition ASNCache_Update (c : ASNCache) (req : ASNRequest) : ASNCache :=
  <[req_Prefix req := req]> c.

(** The entry [loadCacheData] builds for a record and its CIDR. *)
Definition range_request (r : IPRange) (cidr : IPNet) : ASNRequest :=
  mkASNRequest (ip4_String (FirstIP r)) (ASN r) (CC r) (IPNet_String cidr)
    (Description r).

Section LoadCacheData.

(** [amassnet.Range2CIDR(first, last)]: [None] is a nil [*net.IPNet]. *)
Variable Range2CIDR : Z -> Z -> option IPNet.

(** The loop body of [loadCacheData] for one record. *)
Definition load_range (c : ASNCache) (r : IPRange) : ASNCache :=
  match Range2CIDR (FirstIP r) (LastIP r) with
  | None => c
  | Some cidr =>
      if (net_ones cidr =? 0)%N then c
      else ASNCache_Update c (range_request r cidr)
  end.

(** [loadCacheData]: [fetch] is what [config.GetIP2ASNData()] returns
    (an error or the records); the result is the cache and the error. *)
Definition loadCacheData (fetch : string + list IPRange) (c : ASNCache)
    : ASNCache * error :=
  match fetch with
  | inl err => (c, Some err)
  | inr ranges => (foldl load_range c ranges, None)
  end.

End LoadCacheData.

(** Modelled from the spec: [amassnet.Range2CIDR] (not part of this file).
    "Derive the smallest CIDR block spanning [first IP, last IP]": the mask
    length is the number of leading bits the two addresses share and the
    network address is [first] with the other bits cleared. A range whose
    first address is above its last one cannot be expressed as a CIDR. *)
Fixpoint common_prefix_len (fuel : nat) (first last : Z) : Z :=
  match fuel with
  | O => 0
  | S fuel' =>
      let len := Z.of_nat fuel in
      if Z.shiftr first (32 - len) =? Z.shiftr last (32 - len) then len
      else common_prefix_len fuel' first last
  end.

Definition Range2CIDR_spec (first last : Z) : option IPNet :=
  if last <? first then None
  else
    let ones := common_prefix_len 32 first last in
    Some (mkIPNet (Z.shiftl (Z.shiftr first (32 - ones)) (32 - ones)) (Z.to_N ones)).

(* ------------------------------------------------------------------ *)
(** ** Graph databases and [setupGraphDBs] *)

(** A [*config.Database] entry. *)
Record Database := mkDatabase {
  db_System : string;
  db_URL : string;
  db_Options : string;
}.

(** A [*graph.Graph]: an identity and the backend system it wraps. *)
Record Graph := mkGraph {
  graph_id : nat;
  graph_system : string;
}.

(** Modelled from the spec: [graph.Graph.String()] (the [graph] package
    is not part of this file). The spec gives a graph a [describe()] of its
    backend; the method reads the wrapper, so on a nil [*graph.Graph] it is a
    nil pointer dereference. *)
Definition Graph_String (g : option Graph) : go string :=
  match g with
  | Some g => Done (graph_system g)
  | None => Panic "runtime error: invalid memory address or nil pointer dereference"
  end.

Section SetupGraphDBs.

(** [graph.NewCayleyGraph(db.System, db.URL, db.Options)]: [None] is nil. *)
Variable NewCayleyGraph : Database -> option nat.
(** [graph.NewGraph(cayley)]: [None] is nil. *)
Variable NewGraph : nat -> option Graph.

(** The [for _, db := range dbs] loop of [setupGraphDBs]; [acc] is
    [l.graphs]. [ASNCacheFill]'s error is discarded, so it is not modelled. *)
Fixpoint setup_graphs (dbs : list Database) (acc : list Graph)
    : go (list Graph * error) :=
  match dbs with
  | [] => Done (acc, None)
  | db :: dbs' =>
      match NewCayleyGraph db with
      | None =>
          Done (acc, Some ("System: Failed to create the " +:+ db_System db +:+ " graph"))
      | Some cayley =>
          match NewGraph cayley with
          | None =>
              (* fmt.Errorf("System: Failed to create the %s graph", g.String()) *)
              name <- Graph_String None ;;
              Done (acc, Some ("System: Failed to create the " +:+ name +:+ " graph"))
          | Some g => setup_graphs dbs' (acc ++ [g])
          end
      end
  end.

(** [setupGraphDBs]: the local database settings (if any) first, then the
    configured [GraphDBs]. *)
Definition setupGraphDBs (localdb : option Database) (GraphDBs : list Database)
    (graphs : list Graph) : go (list Graph * error) :=
  let dbs := option_list localdb ++ GraphDBs in
  setup_graphs dbs graphs.

End SetupGraphDBs.

(* ------------------------------------------------------------------ *)
(** ** [setupOutputDirectory] *)

Section SetupOutputDirectory.

(** [os.MkdirAll(path, 0755)]: its error. *)
Variable MkdirAll : string -> error.

(** [setupOutputDirectory]; [path] is [config.OutputDirectory(l.cfg.Dir)]. *)
Definition setupOutputDirectory (path : string) : error :=
  if String.eqb path "" then None
  else
    match MkdirAll path with
    | Some _ => None
    | None => None
    end.

End SetupOutputDirectory.

(* ------------------------------------------------------------------ *)
(** ** [LocalSystem], [DataSources] and [Shutdown] *)

(** The state of a [LocalSystem]. [actor] is the list held by the
    [manageDataSources] goroutine while it runs, and [None] when it is not
    running (not yet started, or returned after [done] was closed). The
    [done] channel is [done_closed]; the pool is a handle number. *)
Record LocalSystem := mkLocalSystem {
  pool : nat;
  graphs : list Graph;
  cache : ASNCache;
  done_closed : bool;
  doneAlreadyClosed : bool;
  actor : option (list Service);
}.

Definition set_graphs (l : LocalSystem) (gs : list Graph) : LocalSystem :=
  mkLocalSystem (pool l) gs (cache l) (done_closed l) (doneAlreadyClosed l) (actor l).
Definition set_cache (l : LocalSystem) (c : ASNCache) : LocalSystem :=
  mkLocalSystem (pool l) (graphs l) c (done_closed l) (doneAlreadyClosed l) (actor l).
Definition set_flag (l : LocalSystem) : LocalSystem :=
  mkLocalSystem (pool l) (graphs l) (cache l) (done_closed l) true (actor l).
Definition set_actor (l : LocalSystem) (a : option (list Service)) : LocalSystem :=
  mkLocalSystem (pool l) (graphs l) (cache l) (done_closed l) (doneAlreadyClosed l) a.

(** The teardown actions [Shutdown] performs, in order. *)
Inductive event :=
| StopSource (s : Service)     (* [src.Stop()] *)
| CloseDone                    (* [close(l.done)] *)
| CloseGraph (g : Graph)       (* [g.Close()] *)
| StopPool (p : nat).          (* [l.pool.Stop()] *)

(** [DataSources]: send a reply channel on the buffered [allSources] (the
    send succeeds) and wait for the actor's reply, which never comes when the
    actor is not running. *)
Definition DataSources (l : LocalSystem) : go (list Service) :=
  match actor l with
  | Some ds => Done ds
  | None => Hang
  end.

(** [close(l.done)]: closing a closed channel panics; once closed, the
    actor's [<-l.done] case fires and its loop returns. *)
Definition close_done (l : LocalSystem) : go LocalSystem :=
  if done_closed l then Panic "close of closed channel"
  else Done (mkLocalSystem (pool l) (graphs l) (cache l) true
                           (doneAlreadyClosed l) None).

(** [Shutdown]: the new state, the teardown actions and the returned error. *)
Definition Shutdown (l : LocalSystem) : go (LocalSystem * list event * error) :=
  if doneAlreadyClosed l then Done (l, [], None)
  else
    let l := set_flag l in
    srcs <- DataSources l ;;
    l <- close_done l ;;
    Done (l, map StopSource srcs ++ [CloseDone] ++ map CloseGraph (graphs l)
             ++ [StopPool (pool l)], None).

(* ------------------------------------------------------------------ *)
(** ** [NewLocalSystem] *)

(** What the collaborators called during construction return. *)
Record Env := mkEnv {
  env_CheckSettings : error;                     (* c.CheckSettings() *)
  env_pool : go (option nat);                    (* public/customResolverSetup *)
  env_GetIP2ASNData : string + list IPRange;     (* config.GetIP2ASNData() *)
  env_Range2CIDR : Z -> Z -> option IPNet;       (* amassnet.Range2CIDR *)
  env_OutputDirectory : string;                  (* config.OutputDirectory(c.Dir) *)
  env_MkdirAll : string -> error;                (* os.MkdirAll *)
  env_LocalDatabaseSettings : option Database;   (* cfg.LocalDatabaseSettings(..) *)
  env_GraphDBs : list Database;                  (* cfg.GraphDBs *)
  env_NewCayleyGraph : Database -> option nat;   (* graph.NewCayleyGraph *)
  env_NewGraph : nat -> option Graph;            (* graph.NewGraph *)
}.

(** [_ = sys.Shutdown(); return nil, err] *)
Definition abort_with (sys : LocalSystem) (err : string)
    : go (option LocalSystem * error) :=
  _r <- Shutdown sys ;;
  Done (None, Some err).

(** [NewLocalSystem]: the system (or nil) and the error. The
    [manageDataSources] goroutine is started only on the success path, as
    its last step. *)
Definition NewLocalSystem (e : Env) : go (option LocalSystem * error) :=
  match env_CheckSettings e with
  | Some err => Done (None, Some err)
  | None =>
      p <- env_pool e ;;
      match p with
      | None => Done (None, Some "The system was unable to build the pool of resolvers")
      | Some p =>
          let sys := mkLocalSystem p [] ∅ false false None in
          let '(c, err) := loadCacheData (env_Range2CIDR e) (env_GetIP2ASNData e) (cache sys) in
          let sys := set_cache sys c in
          match err with
          | Some err => abort_with sys err
          | None =>
              match setupOutputDirectory (env_MkdirAll e) (env_OutputDirectory e) with
              | Some err => abort_with sys err
              | None =>
                  r <- setupGraphDBs (env_NewCayleyGraph e) (env_NewGraph e)
                         (env_LocalDatabaseSettings e) (env_GraphDBs e) (graphs sys) ;;
                  let '(gs, err) := r in
                  let sys := set_graphs sys gs in
                  match err with
                  | Some err => abort_with sys err
                  | None => Done (Some (set_actor sys (Some [])), None)
                  end
              end
          end
      end
  end.

(** [AddSource] on a system: the unbuffered send on [l.addSource] is received
    by the actor, which appends and sorts. *)
Inductive add_source : LocalSystem -> Service -> LocalSystem -> Prop :=
| add_source_run l ds ds' s :
    actor l = Some ds ->
    sort_slice (ds ++ [s]) ds' ->
    add_source l s (set_actor l (Some ds')).

(** The systems a caller holds: one [NewLocalSystem] returned, after any
    number of [AddSource] calls. *)
Inductive constructed : LocalSystem -> Prop :=
| constructed_new e l :
    NewLocalSystem e = Done (Some l, None) -> constructed l
| constructed_add l s l' :
    constructed l -> add_source l s l' -> constructed l'.

(* ------------------------------------------------------------------ *)
(** ** The resolver prober [setupResolvers] *)

(** [net.JoinHostPort(host, port)]: a host with a colon is bracketed. *)
Definition JoinHostPort (host port : string) : string :=
  if bool_decide (String.index 0 ":" host = None) then host +:+ ":" +:+ port
  else "[" +:+ host +:+ "]:" +:+ port.

(** A resolver handle built by a probe goroutine; [h_probe] is the index of
    the goroutine that built it. *)
Record Handle := mkHandle {
  h_probe : nat;
  h_res : BaseResolver;
}.

(** Buffer size of the [finished] channel. *)
Definition finished_cap : nat := 10.

(** Delivery of the goroutines' sends on the shared channel: [sched] lists,
    in order, the goroutine performing each next send; each goroutine's sends
    keep their program order. An index whose goroutine has nothing left to
    send is skipped. *)
Fixpoint deliver {X} (sched : list nat) (qs : list (list X)) : list X :=
  match sched with
  | [] => []
  | i :: sched' =>
      match qs !! i with
      | Some (x :: rest) => x :: deliver sched' (<[i := rest]> qs)
      | _ => deliver sched' qs
      end
  end.

(** The caller's loop body over the results it reads: [count < max] keeps a
    handle, otherwise it is stopped ([r.Stop()]); a nil result is skipped.
    Returns the kept and the stopped handles. *)
Fixpoint collect (max count : Z) (rs : list (option Handle))
    : list Handle * list Handle :=
  match rs with
  | [] => ([], [])
  | None :: rs' => collect max count rs'
  | Some h :: rs' =>
      if count <? max then
        let '(kept, stopped) := collect max (count + 1) rs' in (h :: kept, stopped)
      else
        let '(kept, stopped) := collect max count rs' in (kept, h :: stopped)
  end.

(** What [setupResolvers] leaves behind: the returned slice ([None] for
    nil), the handles it stopped, and the sends it never read (they stay in
    the channel buffer or keep their goroutine blocked). *)
Record ProbeRun := mkProbeRun {
  pr_result : option (list Handle);
  pr_stopped : list Handle;
  pr_unread : list (option Handle);
}.

Section SetupResolvers.

(** [net.SplitHostPort(addr)] succeeds. *)
Variable SplitHostPort_ok : string -> bool.
(** [resolvers.ClientSubnetCheck(ip)] returns nil. *)
Variable ClientSubnetCheck_ok : string -> bool.
(** [resolvers.NewBaseResolver(ip, rate, log)] returns non-nil. *)
Variable NewBaseResolver_ok : string -> Z -> bool.

(** The address a probe is started on: the default port is added when
    [SplitHostPort] fails. *)
Definition probe_addr (addr : string) : string :=
  if SplitHostPort_ok addr then addr else JoinHostPort addr "53".

(** The sends of the probe goroutine number [i] on [ip]:
    [ch <- n] when the check passes and the handle is built, then
    [ch <- nil] in every case. *)
Definition probe_sends (rate : Z) (i : nat) (ip : string) : list (option Handle) :=
  (if ClientSubnetCheck_ok ip && NewBaseResolver_ok ip rate
   then [Some (mkHandle i (mkBaseResolver ip rate))] else [])
  ++ [None].

(** The send queues of all probe goroutines, one per address. *)
Definition probes (addrs : list string) (rate : Z) : list (list (option Handle)) :=
  imap (fun i a => probe_sends rate i (probe_addr a)) addrs.

(** [setupResolvers addrs max rate log] under the send order [sched]. The
    caller reads [len(addrs)] results; when the schedule has sent fewer, the
    caller is still waiting ([Hang]). *)
Definition setupResolvers (addrs : list string) (max rate : Z) (sched : list nat)
    : go ProbeRun :=
  if (Z.of_nat (length addrs) <=? 0) then Done (mkProbeRun None [] [])
  else
    let sent := deliver sched (probes addrs rate) in
    let l := length addrs in
    if (length sent <? l)%nat then Hang
    else
      let '(kept, stopped) := collect max 0 (take l sent) in
      Done (mkProbeRun (match kept with [] => None | _ => Some kept end)
                       stopped (drop l sent)).

End SetupResolvers.

(* ------------------------------------------------------------------ *)
(** ** [publicResolverSetup] *)

(** The arguments of [resolvers.NewResolverPool(res, timeout, baseline,
    trust, log)] (the pool itself is outside this file): the members, the
    timeout in seconds, the fallback pool and the trust level. *)
#[warnings="-register-all"]
Inductive PoolArgs :=
| mkPoolArgs (members : list BaseResolver) (timeout_s : Z)
             (fallback : option PoolArgs) (trust : Z).

Section PublicResolverSetup.

Variable DefaultQueriesPerPublicResolver : Z.
Variable DefaultQueriesPerBaselineResolver : Z.
(** [config.PublicResolvers] and [config.DefaultBaselineResolvers]. *)
Variable PublicResolvers : list string.
Variable DefaultBaselineResolvers : list string.
Variable SplitHostPort_ok : string -> bool.
Variable ClientSubnetCheck_ok : string -> bool.
Variable newBaseResolver_ok : string -> Z -> bool.

(** [publicResolverSetup cfg max] under the probe send order [sched]: the
    written-back configuration and the arguments of the returned pool. *)
Definition publicResolverSetup (cfg : Config) (max : Z) (sched : list nat)
    : go (Config * PoolArgs) :=
  let num := Z.of_nat (length PublicResolvers) in
  let num := if num >? max then max else num in
  let q := MaxDNSQueries cfg in
  let q := if q =? 0 then wrap64 (num * DefaultQueriesPerPublicResolver)
           else if q <? num then num else q in
  let cfg := mkConfig (Resolvers cfg) q in
  let trusted :=
    map (fun addr => mkBaseResolver addr DefaultQueriesPerBaselineResolver)
      (filter (fun addr => newBaseResolver_ok addr DefaultQueriesPerBaselineResolver = true)
              DefaultBaselineResolvers) in
  let baseline := mkPoolArgs trusted 1 None 1 in
  run <- setupResolvers SplitHostPort_ok ClientSubnetCheck_ok newBaseResolver_ok
           PublicResolvers max DefaultQueriesPerPublicResolver sched ;;
  let r := map h_res (default [] (pr_result run)) in
  Done (cfg, mkPoolArgs r 2 (Some baseline) 2).

End PublicResolverSetup.

(* ------------------------------------------------------------------ *)
(** ** [AddSource], [AddAndStart] and [GetAllSourceNames] *)




(** The sends not yet delivered under a schedule (what [deliver] leaves in
    each goroutine's queue). *)
Fixpoint undelivered {X} (sched : list nat) (qs : list (list X)) : list (list X) :=
  match sched with
  | [] => qs
  | i :: sched' =>
      match qs !! i with
      | Some (x :: rest) => undelivered sched' (<[i := rest]> qs)
      | _ => undelivered sched' qs
      end
  end.

(* ------------------------------------------------------------------ *)
(** ** Concrete inputs *)

(** A configuration with one trusted resolver and no query budget. *)
Definition one_trusted : Config := mkConfig ["192.0.2.53"] 0.

(** Collaborators that all succeed; [GetIP2ASNData] returns [fetch] and
    the graph configuration is [dbs]. *)
Definition env_with (fetch : string + list IPRange) (dbs : list Database)
    (cayley : Database -> option nat) : Env :=
  mkEnv None (Done (Some 7%nat)) fetch Range2CIDR_spec "" (fun _ => None)
    None dbs cayley (fun c => Some (mkGraph c "cayley")).

(** The dataset download fails. *)
Definition env_fetch_fails : Env :=
  env_with (inl "dataset download failed") [] (fun _ => Some 1%nat).

(** Everything succeeds, with one graph database. *)
Definition env_ok : Env :=
  env_with (inr []) [mkDatabase "local" "" ""] (fun _ => Some 1%nat).

(** The range 1.2.3.0 - 1.2.3.255 of AS 64512. *)
Definition range_1_2_3 : IPRange :=
  mkIPRange 16909056 16909311 64512 "US" "EXAMPLE".

(** Sources named "b", "a", "c" added in that order, then a query. *)
Definition abc_msgs : list actor_msg :=
  [MsgAdd (mkService 1 "b"); MsgAdd (mkService 2 "a"); MsgAdd (mkService 3 "c"); MsgAll].

(** The system [NewLocalSystem env_ok] returns. *)
Definition sys_ok : LocalSystem :=
  mkLocalSystem 7 [mkGraph 1 "cayley"] ∅ false false (Some []).

(** Collaborators that always succeed. *)
Definition always_ok : string -> bool := fun _ => true.
Definition always_ok2 : string -> Z -> bool := fun _ _ => true.

(** Two public resolvers that pass the probe. *)
Definition two_addrs : list string := ["192.0.2.1:53"; "192.0.2.2:53"].

Definition handle0 : Handle := mkHandle 0 (mkBaseResolver "192.0.2.1:53" 15).
Definition handle1 : Handle := mkHandle 1 (mkBaseResolver "192.0.2.2:53" 15).

(** Both probes send their handle before either sends nil. *)
Definition interleaved_sched : list nat := [0; 1; 0; 1]%nat.

(** The schedule in which every probe goroutine runs its sends in turn. *)
Definition sequential_sched (n : nat) : list nat :=
  flat_map (fun i => [i; i]) (seq 0 n).

(* ------------------------------------------------------------------ *)
(** ** Helper lemmas *)

Lemma abort_with_not_some sys err l e :
  abort_with sys err <> Done (Some l, e).
Proof. unfold abort_with. by destruct (Shutdown sys) as [[[??]?]| |]. Qed.

(** Before the actor goroutine is started, [Shutdown] blocks forever. *)
Lemma Shutdown_unstarted_hangs l :
  actor l = None -> doneAlreadyClosed l = false -> Shutdown l = Hang.
Proof. intros Ha Hf. unfold Shutdown, DataSources. by rewrite Hf; simpl; rewrite Ha. Qed.

Lemma NewLocalSystem_success e l :
  NewLocalSystem e = Done (Some l, None) ->
  actor l = Some [] /\ doneAlreadyClosed l = false /\ done_closed l = false.
Proof.
  unfold NewLocalSystem, go_bind. intros H.
  repeat (case_match; simplify_eq/=;
          try (by exfalso; eapply abort_with_not_some; eauto)).
  done.
Qed.

Lemma constructed_running l :
  constructed l ->
  (exists ds, actor l = Some ds) /\ doneAlreadyClosed l = false /\ done_closed l = false.
Proof.
  induction 1 as [e l Hn | l s l' _ IH Hadd].
  - apply NewLocalSystem_success in Hn as (? & ? & ?). eauto.
  - destruct Hadd as [l ds ds' s _ _]. destruct IH as (_ & ? & ?).
    simpl. eauto.
Qed.

Lemma collect_bound max rs : forall count,
  Z.of_nat (length (collect max count rs).1) + count <= Z.max count max.
Proof.
  induction rs as [|[h|] rs IH]; intros count; simpl.
  - lia.
  - destruct (count <? max) eqn:Hc.
    + specialize (IH (count + 1)). destruct (collect max (count + 1) rs) as [k s].
      simpl in *. apply Z.ltb_lt in Hc. lia.
    + specialize (IH count). destruct (collect max count rs) as [k s]. simpl in *. lia.
  - apply IH.
Qed.

Lemma svc_less_false_le a b :
  svc_less b a = false -> String.le (svc_name a) (svc_name b).
Proof.
  unfold svc_less, String.ltb, String.le, String.leb.
  rewrite (String.compare_antisym (svc_name a)).
  by destruct (String.compare (svc_name b) (svc_name a)).
Qed.

(** Index-wise sortedness, as [sort.Slice] guarantees it, is
    [StronglySorted]. *)
Lemma StronglySorted_of_lookup {A} (R : relation A) (l : list A) :
  (forall i j a b, (i < j)%nat -> l !! i = Some a -> l !! j = Some b -> R a b) ->
  StronglySorted R l.
Proof.
  induction l as [|x l IH]; intros Hl; constructor.
  - apply IH. intros i j a b ?. apply (Hl (S i) (S j)). lia.
  - apply Forall_lookup. intros j b Hj. apply (Hl 0%nat (S j)); [lia|done..].
Qed.

Lemma go_div_zero a : go_div a 0 = Panic "runtime error: integer divide by zero".
Proof. reflexivity. Qed.

Lemma wrap64_small z : 0 <= z < 2 ^ 63 -> wrap64 z = z.
Proof.
  intros Hz. unfold wrap64.
  rewrite Z.mod_small by lia.
  destruct (z >=? 2 ^ 63) eqn:E; [apply Z.geb_le in E; lia | done].
Qed.

Lemma setupOutputDirectory_nil MkdirAll path : setupOutputDirectory MkdirAll path = None.
Proof. unfold setupOutputDirectory. by destruct (String.eqb _ _), (MkdirAll path). Qed.

(** With a positive [num] and an unset budget, every trusted resolver runs
    at the default rate. *)
Lemma customResolverSetup_default_rate D ok rs max cfg' trusted :
  let num := Z.min (Z.of_nat (length rs)) max in
  0 < num -> num * D < 2 ^ 63 -> 0 <= D ->
  customResolverSetup D ok (mkConfig rs 0) max = Done (cfg', trusted) ->
  MaxDNSQueries cfg' = num * D /\ Forall (fun r => res_rate r = D) trusted.
Proof.
  intros num Hnum Hov HD. unfold customResolverSetup; simpl.
  assert ((if Z.of_nat (length rs) >? max then max else Z.of_nat (length rs)) = num) as ->.
  { unfold num. rewrite Z.gtb_ltb.
    destruct (Z.ltb_spec max (Z.of_nat (length rs))); lia. }
  rewrite wrap64_small by nia.
  unfold go_div. destruct (num =? 0) eqn:E; [apply Z.eqb_eq in E; lia|].
  rewrite (Z.mul_comm num D), Z.quot_mul by lia.
  rewrite wrap64_small by nia. simpl.
  intros [= <- <-]. split; [simpl; lia|].
  apply Forall_forall. intros r (addr & -> & _)%list_elem_of_fmap. done.
Qed.

(* ------------------------------------------------------------------ *)
(** ** Claims *)

(** C1: a probe whose check passes sends twice on [finished] (the handle,
    then nil), while the caller reads one result per address. With one such
    address the nil is never read; with eleven, eleven sends are never read,
    one more than the buffer holds, so a probe goroutine stays blocked. *)
Theorem setupResolvers_probe_sends_twice :
  let T := fun _ : string => true in
  let TT := fun (_ : string) (_ : Z) => true in
  map length (probes T T TT ["192.0.2.1:53"] 15) = [2%nat] /\
  setupResolvers T T TT ["192.0.2.1:53"] 1 15 [0; 0]%nat =
    Done (mkProbeRun (Some [mkHandle 0 (mkBaseResolver "192.0.2.1:53" 15)]) [] [None]) /\
  match setupResolvers T T TT
          (map (fun i : nat => "192.0.2." +:+ pretty i +:+ ":53") (seq 1 11))
          20 15 (sequential_sched 11) with
  | Done run => length (pr_unread run) = 11%nat /\
                (length (pr_unread run) - finished_cap = 1)%nat
  | _ => False
  end.
Proof. vm_compute. auto. Qed.

(** C2: when the dataset fetch fails, or the first graph backend cannot be
    built, [NewLocalSystem] calls [Shutdown] before the actor goroutine is
    started; [Shutdown] then waits forever for the actor's reply in
    [DataSources], so the error is never returned. *)
Theorem NewLocalSystem_abort_hangs :
  (forall e p err,
     env_CheckSettings e = None -> env_pool e = Done (Some p) ->
     env_GetIP2ASNData e = inl err ->
     NewLocalSystem e = Hang) /\
  (forall e p ranges db,
     env_CheckSettings e = None -> env_pool e = Done (Some p) ->
     env_GetIP2ASNData e = inr ranges ->
     env_LocalDatabaseSettings e = Some db -> env_NewCayleyGraph e db = None ->
     NewLocalSystem e = Hang).
Proof.
  split.
  - intros e p err H1 H2 H3. unfold NewLocalSystem.
    rewrite H1, H2, H3. reflexivity.
  - intros e p ranges db H1 H2 H3 H4 H5. unfold NewLocalSystem.
    rewrite H1, H2, H3, setupOutputDirectory_nil. simpl.
    unfold setupGraphDBs. rewrite H4. simpl. rewrite H5. reflexivity.
Qed.

Lemma NewLocalSystem_abort_hangs_witness :
  env_CheckSettings env_fetch_fails = None /\ NewLocalSystem env_fetch_fails = Hang.
Proof.
  split; [reflexivity|].
  apply (proj1 NewLocalSystem_abort_hangs env_fetch_fails 7%nat "dataset download failed");
    reflexivity.
Defined.

(** C3: with a single trusted resolver and a file-descriptor maximum of 0,
    [num] is 0 and the rate computation [0 / 0] panics instead of yielding
    resolvers at the default rate. *)
Theorem customResolverSetup_unset_budget_max0_panics D ok :
  customResolverSetup D ok one_trusted 0 = Panic "runtime error: integer divide by zero".
Proof. reflexivity. Qed.

(** C8: [setupOutputDirectory] returns nil for every path and every
    outcome of [os.MkdirAll]. *)
Theorem setupOutputDirectory_returns_nil MkdirAll path :
  setupOutputDirectory MkdirAll path = None.
Proof.
  unfold setupOutputDirectory.
  destruct (String.eqb path ""); [reflexivity|].
  by destruct (MkdirAll path).
Qed.

(** C9: when [graph.NewGraph] returns nil, the error message is built
    from [g.String()] on the nil wrapper, which dereferences it and panics. *)
Theorem setupGraphDBs_nil_wrapper_panics db :
  setupGraphDBs (fun _ => Some 0%nat) (fun _ => None) None [db] [] =
    Panic "runtime error: invalid memory address or nil pointer dereference".
Proof. reflexivity. Qed.

(** C10: for every non-empty trusted list and every budget, a maximum of 0
    (a soft file limit of 0 or 1) makes [customResolverSetup] divide by
    zero. *)
Theorem customResolverSetup_max0_divides_by_zero D ok addr addrs q :
  customResolverSetup D ok (mkConfig (addr :: addrs) q) 0 =
    Panic "runtime error: integer divide by zero".
Proof.
  unfold customResolverSetup. simpl Resolvers.
  assert ((Z.of_nat (length (addr :: addrs)) >? 0) = true) as ->.
  { rewrite Z.gtb_ltb. apply Z.ltb_lt. simpl. lia. }
  simpl. by destruct (q =? 0), (q <? 0).
Qed.

(** C4: whatever the send order, [setupResolvers] keeps at most [max]
    handles (0 when [max] is not positive). But with two addresses whose
    probes succeed and [max = 1], under the order in which each goroutine
    runs its sends in turn, the caller reads the first handle and the first
    nil only: the second handle is neither kept nor stopped. *)
Theorem setupResolvers_surplus_handle_unstopped :
  (forall SP CS NB addrs max rate sched run kept,
     setupResolvers SP CS NB addrs max rate sched = Done run ->
     pr_result run = Some kept ->
     Z.of_nat (length kept) <= Z.max 0 max) /\
  (let T := fun _ : string => true in
   let TT := fun (_ : string) (_ : Z) => true in
   setupResolvers T T TT ["192.0.2.1:53"; "192.0.2.2:53"] 1 15 [0; 0; 1; 1]%nat =
     Done (mkProbeRun (Some [mkHandle 0 (mkBaseResolver "192.0.2.1:53" 15)]) []
             [Some (mkHandle 1 (mkBaseResolver "192.0.2.2:53" 15)); None])).
Proof.
  split; [|vm_compute; reflexivity].
  intros SP CS NB addrs max rate sched run kept. unfold setupResolvers.
  destruct (Z.of_nat (length addrs) <=? 0); [by intros [= <-]|].
  destruct (_ <? _)%nat; [done|].
  pose proof (collect_bound max (take (length addrs) (deliver sched (probes SP CS NB addrs rate))) 0) as Hb.
  destruct (collect _ _ _) as [k s]. simpl in Hb.
  intros [= <-]. simpl. destruct k; intros [= <-]; simpl in *; lia.
Qed.

Lemma load_range_fold_lookup R2C ranges : forall c k req,
  foldl (load_range R2C) c ranges !! k = Some req ->
  c !! k = Some req \/
  exists r n, r ∈ ranges /\ R2C (FirstIP r) (LastIP r) = Some n /\
              net_ones n <> 0%N /\ req = range_request r n /\ k = IPNet_String n.
Proof.
  induction ranges as [|r0 rs IH]; intros c k req; simpl; [by left|].
  intros [Hc | (r & n & ? & ? & ? & ? & ?)]%IH; cycle 1.
  { right. exists r, n. split_and!; [by right|done..]. }
  unfold load_range in Hc.
  destruct (R2C (FirstIP r0) (LastIP r0)) as [n|] eqn:Hn; [|by left].
  destruct (net_ones n =? 0)%N eqn:Hz; [by left|].
  apply N.eqb_neq in Hz.
  unfold ASNCache_Update in Hc. apply lookup_insert_Some in Hc as [[<- <-] | [_ Hc]].
  - right. exists r0, n. split_and!; [by left|done..].
  - by left.
Qed.

Lemma load_range_fold_keeps R2C ranges : forall c k,
  is_Some (c !! k) -> is_Some (foldl (load_range R2C) c ranges !! k).
Proof.
  induction ranges as [|r0 rs IH]; intros c k Hk; simpl; [done|].
  apply IH. unfold load_range.
  destruct (R2C _ _); [|exact Hk]. destruct (_ =? _)%N; [exact Hk|].
  unfold ASNCache_Update. apply lookup_insert_is_Some'. by right.
Qed.

Lemma load_range_fold_stores R2C ranges : forall c r n,
  r ∈ ranges -> R2C (FirstIP r) (LastIP r) = Some n -> net_ones n <> 0%N ->
  is_Some (foldl (load_range R2C) c ranges !! IPNet_String n).
Proof.
  induction ranges as [|r0 rs IH]; intros c r n Hin Hr Hz; [by apply elem_of_nil in Hin|].
  cbn [foldl]. apply elem_of_cons in Hin as [-> | Hin]; [|by eapply IH].
  apply load_range_fold_keeps. unfold load_range. rewrite Hr.
  apply N.eqb_neq in Hz. rewrite Hz. unfold ASNCache_Update.
  change (req_Prefix (range_request r0 n)) with (IPNet_String n).
  by rewrite lookup_insert_eq.
Qed.

(** C5: a fresh cache loaded from a fetched dataset holds only entries built
    from records whose CIDR exists and has a positive mask length, keyed by
    that CIDR; every such record has an entry at its CIDR; the load returns
    no error. On the spec's example, 1.2.3.0 - 1.2.3.255 is stored under
    1.2.3.0/24, and the whole IPv4 space (a /0 block) stores nothing. *)
Theorem loadCacheData_valid_prefixes :
  (forall R2C ranges k req,
     (loadCacheData R2C (inr ranges) ∅).1 !! k = Some req ->
     exists r n, r ∈ ranges /\ R2C (FirstIP r) (LastIP r) = Some n /\
                 (0 < net_ones n)%N /\ req = range_request r n /\ k = IPNet_String n) /\
  (forall R2C ranges r n,
     r ∈ ranges -> R2C (FirstIP r) (LastIP r) = Some n -> (0 < net_ones n)%N ->
     is_Some ((loadCacheData R2C (inr ranges) ∅).1 !! IPNet_String n)) /\
  (forall R2C ranges, (loadCacheData R2C (inr ranges) ∅).2 = None) /\
  (loadCacheData Range2CIDR_spec (inr [range_1_2_3]) ∅).1 !! "1.2.3.0/24" =
    Some (mkASNRequest "1.2.3.0" 64512 "US" "1.2.3.0/24" "EXAMPLE") /\
  loadCacheData Range2CIDR_spec (inr [mkIPRange 0 4294967295 0 "" ""]) ∅ = (∅, None).
Proof.
  split_and!.
  - intros R2C ranges k req H. cbn [loadCacheData fst] in H.
    apply load_range_fold_lookup in H as [H | (r & n & ? & ? & ? & ? & ?)].
    + by rewrite lookup_empty in H.
    + exists r, n. split_and!; [done | done | lia | done | done].
  - intros R2C ranges r n Hin Hr Hpos. cbn [loadCacheData fst].
    eapply load_range_fold_stores; [done | done | lia].
  - done.
  - vm_compute. reflexivity.
  - vm_compute. reflexivity.
Qed.

Lemma sort_slice_sorted x x' : sort_slice x x' -> sorted_by_name x'.
Proof.
  intros [_ Hs] i j a b Hij Hi Hj. apply svc_less_false_le. by eapply Hs.
Qed.

Lemma sorted_by_name_nil : sorted_by_name [].
Proof. intros i j a b _ Hi. by rewrite lookup_nil in Hi. Qed.

Lemma actor_run_replies ds ms rs :
  actor_run ds ms rs -> sorted_by_name ds ->
  forall acc, ds ≡ₚ acc ->
  Forall2 (fun r e => r ≡ₚ e /\ sorted_by_name r) rs (expected_replies acc ms).
Proof.
  induction 1 as [ds | ds ms | ds ds' s ms rs Hsort Hrun IH | ds ms rs Hrun IH];
    intros Hds acc Hacc; simpl.
  - constructor.
  - constructor.
  - apply IH; [by eapply sort_slice_sorted|].
    destruct Hsort as [Hp _]. by rewrite Hp, Hacc.
  - constructor; [done|]. by apply IH.
Qed.

(** sort.Slice's order is unique on names. *)
Lemma sorted_names_unique (ds : list Service) (names : list string) :
  sorted_by_name ds -> StronglySorted String.le names ->
  svc_name <$> ds ≡ₚ names -> svc_name <$> ds = names.
Proof.
  intros Hds Hn Hp. apply (StronglySorted_unique String.le); [|done..].
  apply StronglySorted_of_lookup. intros i j a b Hij Hi Hj.
  apply list_lookup_fmap_Some in Hi as (a' & -> & Hi).
  apply list_lookup_fmap_Some in Hj as (b' & -> & Hj).
  by eapply Hds.
Qed.

(** C6: every reply of the actor holds exactly the services added so far
    (duplicate names included) sorted by name; adding "b", "a", "c" then
    querying replies with the names "a", "b", "c" in every execution, and
    such an execution exists. *)
Theorem manageDataSources_sorted_replies :
  (forall ms rs, actor_run [] ms rs ->
     Forall2 (fun r e => r ≡ₚ e /\ sorted_by_name r) rs (expected_replies [] ms)) /\
  (forall rs, actor_run [] abc_msgs rs ->
     (fun ds : list Service => svc_name <$> ds) <$> rs = [["a"; "b"; "c"]]) /\
  (exists rs, actor_run [] abc_msgs rs).
Proof.
  split_and!.
  - intros ms rs Hrun. eapply actor_run_replies; [done | apply sorted_by_name_nil | done].
  - intros rs Hrun.
    pose proof (actor_run_replies _ _ _ Hrun sorted_by_name_nil [] (reflexivity _)) as H.
    simpl in H. inversion H as [|ds e rs' rs'' [Hp Hs] Hnil]; subst.
    inversion Hnil; subst. simpl. f_equal.
    apply sorted_names_unique; [done | repeat constructor; done |].
    rewrite Hp. simpl. solve_Permutation.
  - eexists. unfold abc_msgs.
    eapply run_add with (ds' := [mkService 1 "b"]).
    { split; [done|]. intros [|[|i]] [|[|j]] a b ?; simpl; try done; lia. }
    eapply run_add with (ds' := [mkService 2 "a"; mkService 1 "b"]).
    { split; [simpl; solve_Permutation|].
      intros [|[|i]] [|[|j]] a b ?; simpl; intros; simplify_eq; try done; lia. }
    eapply run_add with (ds' := [mkService 2 "a"; mkService 1 "b"; mkService 3 "c"]).
    { split; [simpl; solve_Permutation|].
      intros [|[|[|i]]] [|[|[|j]]] a b ?; simpl; intros; simplify_eq; try done; lia. }
    apply run_all, run_nil.
Qed.

(** C7: on a system built by [NewLocalSystem] (after any [AddSource]
    calls), the first [Shutdown] stops every registered source, closes
    [done], closes every graph and stops the pool, and returns nil; the state
    it leaves is a fixed point of [Shutdown], which from then on returns nil
    with no teardown action. *)
Theorem Shutdown_idempotent l :
  constructed l ->
  exists ds l',
    actor l = Some ds /\
    Shutdown l = Done (l', map StopSource ds ++ [CloseDone] ++
                           map CloseGraph (graphs l) ++ [StopPool (pool l)], None) /\
    Shutdown l' = Done (l', [], None).
Proof.
  intros Hc. apply constructed_running in Hc as ([ds Ha] & Hf & Hd).
  destruct l as [p gs c dc f a]; simpl in *; subst.
  exists ds, (mkLocalSystem p gs c true true None).
  split_and!; reflexivity.
Qed.

Lemma Shutdown_idempotent_witness :
  constructed sys_ok /\
  exists ds l',
    actor sys_ok = Some ds /\
    Shutdown sys_ok = Done (l', map StopSource ds ++ [CloseDone] ++
                           map CloseGraph (graphs sys_ok) ++ [StopPool (pool sys_ok)], None) /\
    Shutdown l' = Done (l', [], None).
Proof.
  assert (Hc : constructed sys_ok).
  { apply (constructed_new env_ok). vm_compute. reflexivity. }
  split; [exact Hc|].
  exact (Shutdown_idempotent sys_ok Hc).
Defined.

(* ------------------------------------------------------------------ *)
(** ** Further properties of the code *)

Lemma concat_insert_perm {X} (qs : list (list X)) : forall i q q',
  qs !! i = Some q -> concat (<[i := q']> qs) ++ q ≡ₚ concat qs ++ q'.
Proof.
  induction qs as [|a qs IH]; intros [|i] q q' Hi; simpl in *; simplify_eq.
  - solve_Permutation.
  - rewrite <- !(assoc_L app). f_equiv. by apply IH.
Qed.

Lemma deliver_undelivered_perm {X} (sched : list nat) : forall qs : list (list X),
  deliver sched qs ++ concat (undelivered sched qs) ≡ₚ concat qs.
Proof.
  induction sched as [|i sched IH]; intros qs; simpl; [done|].
  destruct (qs !! i) as [[|x rest]|] eqn:Hi; [apply IH| |apply IH].
  simpl. rewrite IH.
  apply (Permutation_app_inv_r rest).
  rewrite <- (concat_insert_perm qs i (x :: rest) rest Hi). solve_Permutation.
Qed.

Lemma collect_perm max rs : forall count,
  (collect max count rs).1 ++ (collect max count rs).2 ≡ₚ omap id rs.
Proof.
  induction rs as [|[h|] rs IH]; intros count; simpl; [done| |apply IH].
  destruct (count <? max).
  - specialize (IH (count + 1)). destruct (collect max (count + 1) rs). simpl in *.
    by rewrite IH.
  - specialize (IH count). destruct (collect max count rs). simpl in *.
    rewrite <- IH. solve_Permutation.
Qed.

Lemma collect_full max rs : forall count,
  max <= count -> (collect max count rs).1 = [].
Proof.
  intros count Hc. pose proof (collect_bound max rs count) as Hb.
  destruct (collect max count rs) as [[|??] ?]; simpl in *; [done|lia].
Qed.

Lemma collect_stopped_full max rs : forall count,
  (collect max count rs).2 <> [] ->
  Z.of_nat (length (collect max count rs).1) + count = Z.max count max.
Proof.
  induction rs as [|[h|] rs IH]; intros count; simpl; [done| |apply IH].
  destruct (count <? max) eqn:Hc.
  - apply Z.ltb_lt in Hc. specialize (IH (count + 1)).
    destruct (collect max (count + 1) rs) as [k s]. simpl in *. intros Hs.
    specialize (IH Hs). lia.
  - apply Z.ltb_ge in Hc. pose proof (collect_full max rs count Hc) as Hk.
    destruct (collect max count rs) as [k s]. simpl in *. subst. simpl. lia.
Qed.

(** Every handle [setupResolvers] holds or has left behind, together with
    the sends not yet made, is exactly the handles the probes build. *)
Lemma setupResolvers_accounted SP CS NB addrs max rate sched run :
  setupResolvers SP CS NB addrs max rate sched = Done run ->
  default [] (pr_result run) ++ pr_stopped run ++ omap id (pr_unread run)
    ++ omap id (concat (undelivered sched (probes SP CS NB addrs rate)))
  ≡ₚ omap id (concat (probes SP CS NB addrs rate)).
Proof.
  unfold setupResolvers.
  destruct (Z.of_nat (length addrs) <=? 0) eqn:Hl.
  - intros [= <-]. apply Z.leb_le in Hl. destruct addrs; [|simpl in Hl; lia].
    simpl. clear. induction sched; simpl; auto.
  - destruct (_ <? _)%nat; [done|].
    pose proof (collect_perm max (take (length addrs) (deliver sched (probes SP CS NB addrs rate))) 0) as Hp.
    destruct (collect _ _ _) as [k s] eqn:Hc. intros [= <-]. simpl in *.
    rewrite <- (deliver_undelivered_perm sched (probes SP CS NB addrs rate)).
    assert (Hk : default [] (match k with [] => None | _ => Some k end) = k)
      by (by destruct k).
    rewrite Hk, (assoc_L app), Hp, (assoc_L app), <- !omap_app, take_drop.
    done.
Qed.

(** No handle is lost: for every send order, the handles [setupResolvers]
    returns, the ones it stops, the ones left unread on the channel and the
    ones not yet sent are, together, exactly the handles the probes build. *)
Theorem setupResolvers_no_handle_lost SP CS NB addrs max rate sched run :
  setupResolvers SP CS NB addrs max rate sched = Done run ->
  default [] (pr_result run) ++ pr_stopped run ++ omap id (pr_unread run)
    ++ omap id (concat (undelivered sched (probes SP CS NB addrs rate)))
  ≡ₚ omap id (concat (probes SP CS NB addrs rate)).
Proof. apply setupResolvers_accounted. Qed.

Lemma setupResolvers_no_handle_lost_witness :
  setupResolvers always_ok always_ok always_ok2 two_addrs 1 15 interleaved_sched =
    Done (mkProbeRun (Some [handle0]) [handle1] [None; None]) /\
  [handle0] ++ [handle1] ++ omap id [None; None]
    ++ omap id (concat (undelivered interleaved_sched
                          (probes always_ok always_ok always_ok2 two_addrs 15)))
  ≡ₚ omap id (concat (probes always_ok always_ok always_ok2 two_addrs 15)).
Proof.
  assert (H : setupResolvers always_ok always_ok always_ok2 two_addrs 1 15 interleaved_sched =
                Done (mkProbeRun (Some [handle0]) [handle1] [None; None]))
    by (vm_compute; reflexivity).
  split; [exact H|].
  exact (setupResolvers_no_handle_lost _ _ _ _ _ _ _ _ H).
Defined.

Lemma setupResolvers_handle_origin SP CS NB addrs max rate sched run h :
  setupResolvers SP CS NB addrs max rate sched = Done run ->
  h ∈ default [] (pr_result run) ++ pr_stopped run ->
  exists i a, addrs !! i = Some a /\
    h = mkHandle i (mkBaseResolver (probe_addr SP a) rate) /\
    CS (probe_addr SP a) = true /\ NB (probe_addr SP a) rate = true.
Proof.
  intros Hrun Hh.
  assert (Hin : h ∈ omap id (concat (probes SP CS NB addrs rate))).
  { rewrite <- (setupResolvers_accounted _ _ _ _ _ _ _ _ Hrun).
    rewrite (assoc_L app). apply elem_of_app. by left. }
  apply list_elem_of_omap in Hin as (x & Hx & Hxh). simpl in Hxh. subst x.
  apply list_elem_of_In, in_concat in Hx as (q & Hq & Hhq).
  apply list_elem_of_In, elem_of_lookup_imap_1 in Hq as (i & a & -> & Ha).
  apply list_elem_of_In in Hhq. unfold probe_sends in Hhq.
  destruct (CS (probe_addr SP a)) eqn:Hcs, (NB (probe_addr SP a) rate) eqn:Hnb;
    simpl in Hhq; set_solver.
Qed.

(** Every handle [setupResolvers] returns or stops was built by the probe of
    one of the given addresses (with the default port added when missing),
    whose client-subnet check passed, at the given rate. *)
Theorem setupResolvers_handles_from_passing_probes SP CS NB addrs max rate sched run h :
  setupResolvers SP CS NB addrs max rate sched = Done run ->
  h ∈ default [] (pr_result run) ++ pr_stopped run ->
  exists i a, addrs !! i = Some a /\
    h = mkHandle i (mkBaseResolver (probe_addr SP a) rate) /\
    CS (probe_addr SP a) = true /\ NB (probe_addr SP a) rate = true.
Proof. apply setupResolvers_handle_origin. Qed.

Lemma setupResolvers_handles_from_passing_probes_witness :
  setupResolvers always_ok always_ok always_ok2 two_addrs 1 15 interleaved_sched =
    Done (mkProbeRun (Some [handle0]) [handle1] [None; None]) /\
  exists i a, two_addrs !! i = Some a /\
    handle1 = mkHandle i (mkBaseResolver (probe_addr always_ok a) 15) /\
    always_ok (probe_addr always_ok a) = true /\ always_ok2 (probe_addr always_ok a) 15 = true.
Proof.
  assert (H : setupResolvers always_ok always_ok always_ok2 two_addrs 1 15 interleaved_sched =
                Done (mkProbeRun (Some [handle0]) [handle1] [None; None]))
    by (vm_compute; reflexivity).
  split; [exact H|].
  apply (setupResolvers_handles_from_passing_probes _ _ _ _ _ _ _ _ handle1 H).
  simpl. set_solver.
Defined.

(** [setupResolvers] stops a handle only once it holds [max] handles: when
    anything was stopped, the returned slice has exactly [max] elements (none
    when [max] is not positive). *)
Theorem setupResolvers_stops_only_at_cap SP CS NB addrs max rate sched run :
  setupResolvers SP CS NB addrs max rate sched = Done run ->
  pr_stopped run <> [] ->
  length (default [] (pr_result run)) = Z.to_nat max.
Proof.
  unfold setupResolvers.
  destruct (Z.of_nat (length addrs) <=? 0); [by intros [= <-]|].
  destruct (_ <? _)%nat; [done|].
  pose proof (collect_stopped_full max (take (length addrs) (deliver sched (probes SP CS NB addrs rate))) 0) as Hb.
  destruct (collect _ _ _) as [k s]. simpl in Hb. intros [= <-]. simpl. intros Hs.
  specialize (Hb Hs). destruct k; simpl in *; lia.
Qed.

Lemma setupResolvers_stops_only_at_cap_witness :
  [handle1] <> [] /\ length [handle0] = Z.to_nat 1.
Proof.
  split; [done|].
  change [handle0] with (default [] (pr_result (mkProbeRun (Some [handle0]) [handle1] [None; None]))).
  apply (setupResolvers_stops_only_at_cap always_ok always_ok always_ok2 two_addrs 1 15 interleaved_sched);
    [vm_compute; reflexivity | done].
Defined.

Lemma setupResolvers_kept_bound SP CS NB addrs max rate sched run :
  setupResolvers SP CS NB addrs max rate sched = Done run ->
  Z.of_nat (length (default [] (pr_result run))) <= Z.max 0 max.
Proof.
  unfold setupResolvers.
  destruct (Z.of_nat (length addrs) <=? 0); [intros [= <-]; simpl; lia|].
  destruct (_ <? _)%nat; [done|].
  pose proof (collect_bound max (take (length addrs) (deliver sched (probes SP CS NB addrs rate))) 0) as Hb.
  destruct (collect _ _ _) as [k s]. simpl in Hb. intros [= <-]. simpl.
  destruct k; simpl in *; lia.
Qed.


(** With a positive [num], a budget in the range of a Go [int] and a
    positive default rate whose product with [num] does not overflow, the
    written-back budget is at least [num] and every trusted resolver's rate
    is at least 1. *)
Theorem customResolverSetup_rate_positive D ok cfg max cfg' trusted :
  let num := Z.min (Z.of_nat (length (Resolvers cfg))) max in
  0 < num -> 1 <= D -> num * D < 2 ^ 63 ->
  - 2 ^ 63 <= MaxDNSQueries cfg < 2 ^ 63 ->
  customResolverSetup D ok cfg max = Done (cfg', trusted) ->
  num <= MaxDNSQueries cfg' /\ Forall (fun r => 1 <= res_rate r) trusted.
Proof.
  intros num Hnum HD Hov Hq. unfold customResolverSetup.
  assert ((if Z.of_nat (length (Resolvers cfg)) >? max then max
           else Z.of_nat (length (Resolvers cfg))) = num) as ->.
  { unfold num. rewrite Z.gtb_ltb.
    destruct (Z.ltb_spec max (Z.of_nat (length (Resolvers cfg)))); lia. }
  set (q' := if MaxDNSQueries cfg =? 0 then wrap64 (num * D)
             else if MaxDNSQueries cfg <? num then num else MaxDNSQueries cfg).
  assert (Hq' : num <= q' < 2 ^ 63).
  { unfold q'. destruct (Z.eqb_spec (MaxDNSQueries cfg) 0).
    - rewrite wrap64_small by nia. nia.
    - destruct (Z.ltb_spec (MaxDNSQueries cfg) num); lia. }
  simpl. unfold go_div. destruct (Z.eqb_spec num 0); [lia|].
  rewrite Z.quot_div_nonneg by lia.
  assert (1 <= q' / num <= q').
  { split; [apply Z.div_le_lower_bound; lia | apply Z.div_le_upper_bound; nia]. }
  rewrite wrap64_small by lia. simpl.
  intros [= <- <-]. split; [simpl; lia|].
  apply Forall_forall. intros r (addr & -> & _)%list_elem_of_fmap. simpl. lia.
Qed.

Lemma customResolverSetup_rate_positive_witness :
  exists cfg' trusted,
    customResolverSetup 50 always_ok2 (mkConfig ["192.0.2.53"; "192.0.2.54"] 3) 10 =
      Done (cfg', trusted) /\
    2 <= MaxDNSQueries cfg' /\ Forall (fun r => 1 <= res_rate r) trusted.
Proof.
  do 2 eexists. split; [reflexivity|].
  apply (customResolverSetup_rate_positive 50 always_ok2
           (mkConfig ["192.0.2.53"; "192.0.2.54"] 3) 10); simpl; try lia.
  reflexivity.
Defined.

(** With an unset budget and a positive [num], every trusted resolver runs
    at the default rate and the budget written back is [num] times it. *)
Theorem customResolverSetup_unset_budget_default_rate D ok rs max cfg' trusted :
  let num := Z.min (Z.of_nat (length rs)) max in
  0 < num -> num * D < 2 ^ 63 -> 0 <= D ->
  customResolverSetup D ok (mkConfig rs 0) max = Done (cfg', trusted) ->
  MaxDNSQueries cfg' = num * D /\ Forall (fun r => res_rate r = D) trusted.
Proof. apply customResolverSetup_default_rate. Qed.

Lemma customResolverSetup_unset_budget_default_rate_witness :
  exists cfg' trusted,
    customResolverSetup 50 always_ok2 (mkConfig ["192.0.2.53"; "192.0.2.54"] 0) 10 =
      Done (cfg', trusted) /\
    MaxDNSQueries cfg' = 2 * 50 /\ Forall (fun r => res_rate r = 50) trusted.
Proof.
  do 2 eexists. split; [reflexivity|].
  apply (customResolverSetup_unset_budget_default_rate 50 always_ok2
           ["192.0.2.53"; "192.0.2.54"] 10); simpl; try lia.
  reflexivity.
Defined.




(** The pool [publicResolverSetup] returns: a 2-second pool of trust 2 whose
    members are at most [max] probed public resolvers, each at the public
    default rate whatever the query budget, with a 1-second fallback pool of
    trust 1 holding the baseline resolvers at the baseline default rate.
    The configured resolvers are left as they were. *)
Theorem publicResolverSetup_pool_shape DP DB PR BR SP CS NB cfg max sched cfg' pa :
  publicResolverSetup DP DB PR BR SP CS NB cfg max sched = Done (cfg', pa) ->
  Resolvers cfg' = Resolvers cfg /\
  exists r b, pa = mkPoolArgs r 2 (Some (mkPoolArgs b 1 None 1)) 2 /\
    Z.of_nat (length r) <= Z.max 0 max /\
    Forall (fun m => res_rate m = DP /\ CS (res_addr m) = true /\
                     exists a, a ∈ PR /\ res_addr m = probe_addr SP a) r /\
    Forall (fun m => res_rate m = DB /\ res_addr m ∈ BR) b.
Proof.
  unfold publicResolverSetup. simpl.
  destruct (setupResolvers SP CS NB PR max DP sched) as [run| |m] eqn:Hrun;
    simpl; try done.
  intros [= <- <-]. split; [done|].
  eexists _, _. split; [reflexivity|]. split; [|split].
  - rewrite length_map. by apply setupResolvers_kept_bound in Hrun.
  - apply Forall_forall. intros m (h & -> & Hh)%list_elem_of_fmap.
    destruct (setupResolvers_handle_origin _ _ _ _ _ _ _ _ h Hrun)
      as (i & a & Ha & -> & Hcs & _).
    { apply elem_of_app. by left. }
    simpl. split; [done|]. split; [done|].
    exists a. split; [|done]. by eapply list_elem_of_lookup_2.
  - apply Forall_forall. intros m (addr & -> & Hf)%list_elem_of_fmap.
    apply list_elem_of_filter in Hf as [_ Hf]. by simpl.
Qed.

Lemma publicResolverSetup_pool_shape_witness :
  exists cfg' pa,
    publicResolverSetup 15 50 two_addrs ["192.0.2.53"] always_ok always_ok always_ok2
      (mkConfig [] 0) 1 interleaved_sched = Done (cfg', pa) /\
    Resolvers cfg' = [] /\
    exists r b, pa = mkPoolArgs r 2 (Some (mkPoolArgs b 1 None 1)) 2 /\
      Z.of_nat (length r) <= Z.max 0 1 /\
      Forall (fun m => res_rate m = 15 /\ always_ok (res_addr m) = true /\
                       exists a, a ∈ two_addrs /\ res_addr m = probe_addr always_ok a) r /\
      Forall (fun m => res_rate m = 50 /\ res_addr m ∈ ["192.0.2.53"]) b.
Proof.
  do 2 eexists. split; [vm_compute; reflexivity|].
  eapply (publicResolverSetup_pool_shape 15 50 two_addrs ["192.0.2.53"]
            always_ok always_ok always_ok2 (mkConfig [] 0) 1 interleaved_sched).
  vm_compute. reflexivity.
Defined.



Lemma setup_graphs_outcome NC NG dbs : forall acc gs err,
  setup_graphs NC NG dbs acc = Done (gs, err) ->
  exists pre new,
    Forall2 (fun db g => exists c, NC db = Some c /\ NG c = Some g) pre new /\
    gs = acc ++ new /\
    ((err = None /\ pre = dbs) \/
     exists db post, dbs = pre ++ db :: post /\ NC db = None /\
       err = Some ("System: Failed to create the " +:+ db_System db +:+ " graph")).
Proof.
  induction dbs as [|db dbs IH]; intros acc gs err; simpl.
  - intros [= <- <-]. exists [], []. rewrite app_nil_r. eauto.
  - destruct (NC db) as [c|] eqn:Hc.
    + destruct (NG c) as [g|] eqn:Hg; [|done].
      intros (pre & new & Hf & -> & Herr)%IH.
      exists (db :: pre), (g :: new). split; [constructor; eauto|].
      split; [by rewrite <- (assoc_L app)|].
      destruct Herr as [[-> ->] | (db' & post & -> & ? & ->)]; [by left|].
      right. by exists db', post.
    + intros [= <- <-]. exists [], []. rewrite app_nil_r.
      split; [done|]. split; [done|]. right. by exists db, dbs.
Qed.

Lemma abort_with_unstarted_hangs sys err :
  actor sys = None -> doneAlreadyClosed sys = false -> abort_with sys err = Hang.
Proof. intros Ha Hf. unfold abort_with. by rewrite Shutdown_unstarted_hangs. Qed.









(** When [setupGraphDBs] succeeds, it has appended one graph per database,
    in order, the local database settings first, each built by
    [NewCayleyGraph] and wrapped by [NewGraph]; the graphs already held are
    kept in front. *)
Theorem setupGraphDBs_success_builds_all NC NG localdb dbs acc gs :
  setupGraphDBs NC NG localdb dbs acc = Done (gs, None) ->
  exists new, gs = acc ++ new /\
    Forall2 (fun db g => exists c, NC db = Some c /\ NG c = Some g)
            (option_list localdb ++ dbs) new.
Proof.
  unfold setupGraphDBs.
  intros (pre & new & Hf & -> & [[_ ->] | (db & post & _ & _ & [=])])%setup_graphs_outcome.
  eauto.
Qed.

Lemma setupGraphDBs_success_builds_all_witness :
  setupGraphDBs (fun _ => Some 1%nat) (fun c => Some (mkGraph c "cayley"))
    (Some (mkDatabase "local" "" "")) [mkDatabase "postgres" "" ""] [] =
    Done ([mkGraph 1 "cayley"; mkGraph 1 "cayley"], None) /\
  exists new, [mkGraph 1 "cayley"; mkGraph 1 "cayley"] = [] ++ new /\
    Forall2 (fun db g => exists c, (fun _ => Some 1%nat) db = Some c /\
                                   (fun c => Some (mkGraph c "cayley")) c = Some g)
            (option_list (Some (mkDatabase "local" "" "")) ++ [mkDatabase "postgres" "" ""]) new.
Proof.
  assert (H : setupGraphDBs (fun _ => Some 1%nat) (fun c => Some (mkGraph c "cayley"))
    (Some (mkDatabase "local" "" "")) [mkDatabase "postgres" "" ""] [] =
    Done ([mkGraph 1 "cayley"; mkGraph 1 "cayley"], None)) by reflexivity.
  split; [exact H|]. exact (setupGraphDBs_success_builds_all _ _ _ _ _ _ H).
Defined.

(** An error returned by [setupGraphDBs] always names the [System] of a
    database for which [NewCayleyGraph] failed (a [NewGraph] failure panics
    instead); the graphs of the databases before it stay appended. *)
Theorem setupGraphDBs_error_names_failed_db NC NG localdb dbs acc gs e :
  setupGraphDBs NC NG localdb dbs acc = Done (gs, Some e) ->
  exists pre db post new,
    option_list localdb ++ dbs = pre ++ db :: post /\ NC db = None /\
    e = "System: Failed to create the " +:+ db_System db +:+ " graph" /\
    gs = acc ++ new /\
    Forall2 (fun db g => exists c, NC db = Some c /\ NG c = Some g) pre new.
Proof.
  unfold setupGraphDBs.
  intros (pre & new & Hf & -> & [[? _] | (db & post & Hd & Hn & [= ->])])%setup_graphs_outcome;
    [done|].
  by exists pre, db, post, new.
Qed.

Lemma setupGraphDBs_error_names_failed_db_witness :
  exists gs e,
    setupGraphDBs (fun db => if String.eqb (db_System db) "local" then Some 1%nat else None)
      (fun c => Some (mkGraph c "cayley"))
      (Some (mkDatabase "local" "" "")) [mkDatabase "postgres" "" ""] [] = Done (gs, Some e) /\
    exists pre db post new,
      option_list (Some (mkDatabase "local" "" "")) ++ [mkDatabase "postgres" "" ""] =
        pre ++ db :: post /\
      (fun db => if String.eqb (db_System db) "local" then Some 1%nat else None) db = None /\
      e = "System: Failed to create the " +:+ db_System db +:+ " graph" /\
      gs = [] ++ new /\
      Forall2 (fun db g => exists c,
                 (fun db => if String.eqb (db_System db) "local" then Some 1%nat else None) db = Some c /\
                 (fun c => Some (mkGraph c "cayley")) c = Some g) pre new.
Proof.
  do 2 eexists. split; [vm_compute; reflexivity|].
  eapply setupGraphDBs_error_names_failed_db. vm_compute. reflexivity.
Defined.

(** A system [NewLocalSystem] returns comes with no error, its actor running
    with no sources, [done] open, the pool it built, the cache loaded from
    the ASN data into an empty cache, and one graph per database (local
    settings first), each built by [NewCayleyGraph] and [NewGraph]. *)
Theorem NewLocalSystem_result_shape e l err :
  NewLocalSystem e = Done (Some l, err) ->
  err = None /\ actor l = Some [] /\ done_closed l = false /\
  doneAlreadyClosed l = false /\ env_pool e = Done (Some (pool l)) /\
  cache l = (loadCacheData (env_Range2CIDR e) (env_GetIP2ASNData e) ∅).1 /\
  Forall2 (fun db g => exists c, env_NewCayleyGraph e db = Some c /\ env_NewGraph e c = Some g)
          (option_list (env_LocalDatabaseSettings e) ++ env_GraphDBs e) (graphs l).
Proof.
  unfold NewLocalSystem. destruct (env_CheckSettings e); [done|].
  destruct (env_pool e) as [[p|]| |]; simpl; try done.
  destruct (loadCacheData _ _ _) as [c [err'|]] eqn:Hload; simpl.
  { intros H. by apply abort_with_not_some in H. }
  destruct (setupOutputDirectory _ _).
  { intros H. by apply abort_with_not_some in H. }
  destruct (setupGraphDBs _ _ _ _ _) as [[gs [err'|]]| |] eqn:Hg; simpl; try done;
    try (intros H; by apply abort_with_not_some in H).
  intros [= <- <-]. simpl.
  unfold setupGraphDBs in Hg.
  apply setup_graphs_outcome in Hg
    as (pre & new & Hf & -> & [[_ ->] | (db & post & _ & _ & [=])]).
  by repeat split.
Qed.

Lemma NewLocalSystem_result_shape_witness :
  NewLocalSystem env_ok = Done (Some sys_ok, None) /\
  None = @None string /\ actor sys_ok = Some [] /\ done_closed sys_ok = false /\
  doneAlreadyClosed sys_ok = false /\ env_pool env_ok = Done (Some (pool sys_ok)) /\
  cache sys_ok = (loadCacheData (env_Range2CIDR env_ok) (env_GetIP2ASNData env_ok) ∅).1 /\
  Forall2 (fun db g => exists c, env_NewCayleyGraph env_ok db = Some c /\
                                 env_NewGraph env_ok c = Some g)
          (option_list (env_LocalDatabaseSettings env_ok) ++ env_GraphDBs env_ok)
          (graphs sys_ok).
Proof.
  assert (H : NewLocalSystem env_ok = Done (Some sys_ok, None)).
  { vm_compute. reflexivity. }
  split; [exact H|]. exact (NewLocalSystem_result_shape env_ok sys_ok None H).
Defined.

(** [NewLocalSystem] returns nil only for invalid settings or a resolver
    pool that could not be built: every later failure goes through
    [Shutdown] on a system whose actor is not running, which blocks, so
    those errors never reach the caller. *)
Theorem NewLocalSystem_reported_failures e err :
  NewLocalSystem e = Done (None, err) ->
  (err = env_CheckSettings e /\ err <> None) \/
  (env_CheckSettings e = None /\ env_pool e = Done None /\
   err = Some "The system was unable to build the pool of resolvers").
Proof.
  unfold NewLocalSystem. destruct (env_CheckSettings e) as [s|].
  { intros [= <-]. by left. }
  destruct (env_pool e) as [[p|]| |]; simpl; try done.
  - destruct (loadCacheData _ _ _) as [c [err'|]]; simpl;
      [by rewrite ?abort_with_unstarted_hangs|].
    destruct (setupOutputDirectory _ _);
      [by rewrite ?abort_with_unstarted_hangs|].
    destruct (setupGraphDBs _ _ _ _ _) as [[gs [err'|]]| |]; simpl; try done.
  - intros [= <-]. by right.
Qed.

Lemma NewLocalSystem_reported_failures_witness :
  NewLocalSystem (mkEnv (Some "invalid settings") (Done (Some 7%nat)) (inr []) Range2CIDR_spec
                    "" (fun _ => None) None [] (fun _ => Some 1%nat)
                    (fun c => Some (mkGraph c "cayley"))) =
    Done (None, Some "invalid settings") /\
  ((Some "invalid settings" = Some "invalid settings" /\ Some "invalid settings" <> None) \/
   (Some "invalid settings" = None /\ Done (Some 7%nat) = Done None /\
    Some "invalid settings" = Some "The system was unable to build the pool of resolvers")).
Proof.
  assert (H : NewLocalSystem (mkEnv (Some "invalid settings") (Done (Some 7%nat)) (inr [])
                 Range2CIDR_spec "" (fun _ => None) None [] (fun _ => Some 1%nat)
                 (fun c => Some (mkGraph c "cayley"))) =
              Done (None, Some "invalid settings")) by reflexivity.
  split; [exact H|]. exact (NewLocalSystem_reported_failures _ _ H).
Defined.

(** For any [Range2CIDR], loading the ASN data keeps every entry already
    in the cache, stores an entry under [cidr.String()] for each record whose
    CIDR is non-nil with a non-zero mask, and adds nothing else: every
    entry is either an old one or the request built from such a record. *)
Theorem loadCacheData_cache_contents R2C ranges c :
  let c' := (loadCacheData R2C (inr ranges) c).1 in
  (forall k, is_Some (c !! k) -> is_Some (c' !! k)) /\
  (forall r n, r ∈ ranges -> R2C (FirstIP r) (LastIP r) = Some n ->
     net_ones n <> 0%N -> is_Some (c' !! IPNet_String n)) /\
  (forall k req, c' !! k = Some req ->
     c !! k = Some req \/
     exists r n, r ∈ ranges /\ R2C (FirstIP r) (LastIP r) = Some n /\
                 net_ones n <> 0%N /\ req = range_request r n /\ k = IPNet_String n).
Proof.
  cbn [loadCacheData fst]. split; [|split].
  - intros k. apply load_range_fold_keeps.
  - intros r n. apply load_range_fold_stores.
  - intros k req. apply load_range_fold_lookup.
Qed.
